(** * Left and right folds over Python lists (nbs/list.ipynb)

    The notebook exports two functions, [foldl_list] (a [for] loop that
    threads an accumulator) and [foldr_list] (direct recursion on the tail of
    the list), and illustrates them with a few combiners: integer addition,
    [map_left] / [map_right], and [allocate], which sorts integers into a
    dictionary keyed by parity.

    Python lists are [list], Python integers are [Z], dictionaries with string
    keys are [gmap string _].  Three views of the two functions are given:
    - the value computed when the combiner is a total function;
    - the outcome (value or exception) when the combiner may raise and the
      interpreter bounds the depth of the call stack;
    - the runs of the functions when the combiner is an arbitrary relation
      between its arguments and its result. *)

From Stdlib Require Import ZArith Lia.
From stdpp Require Import base relations functions list strings gmap.

Local Open Scope Z_scope.

(** ** Outcomes of a Python call *)

Inductive exn : Type :=
  | KeyError (key : string)
  | ValueError
  | RecursionError.

Inductive outcome (B : Type) : Type :=
  | Returned (b : B)
  | Raised (e : exn).

Arguments Returned {B} b.
Arguments Raised {B} e.

#[global] Instance outcome_ret : MRet outcome := fun B b => Returned b.

#[global] Instance outcome_bind : MBind outcome := fun B C k o =>
  match o with
  | Returned b => k b
  | Raised e => Raised e
  end.

(** A combiner that never raises, seen as a Python callable. *)
Definition total2 {X Y R : Type} (g : X -> Y -> R) : X -> Y -> outcome R :=
  fun x y => Returned (g x y).

(** ** The two folds on total combiners *)

Section Folds.
Context {A B : Type}.

(** [out = start; for next_a in a_vals: out = f(out, next_a); return out] *)
Fixpoint foldl_list (a_vals : list A) (start : B) (f : B -> A -> B) : B :=
  match a_vals with
  | [] => start
  | next_a :: rest => foldl_list rest (f start next_a) f
  end.

(** [if len(a_vals) == 0: return start], otherwise
    [next_a, *remaining_a_vals = a_vals] and
    [return f(next_a, foldr_list(remaining_a_vals, start, f))]. *)
Fixpoint foldr_list (a_vals : list A) (start : B) (f : A -> B -> B) : B :=
  match a_vals with
  | [] => start
  | next_a :: remaining_a_vals =>
      f next_a (foldr_list remaining_a_vals start f)
  end.

(** The state of the [for] loop of [foldl_list]: the variable [out] and the
    elements the iterator has not produced yet.  One iteration takes the
    next element and rebinds [out]. *)
Inductive loop_step (f : B -> A -> B) : relation (B * list A) :=
  | loop_iter out next_a rest :
      loop_step f (out, next_a :: rest) (f out next_a, rest).

(** The right fold as the specification words it: two equations, one for the
    empty sequence and one for a head followed by a tail. *)
Fixpoint RightFold (sequence : list A) (initial : B) (combine : A -> B -> B) : B :=
  match sequence with
  | [] => initial
  | head :: tail => combine head (RightFold tail initial combine)
  end.

End Folds.

(** ** The folds when the combiner may raise and the call stack is bounded *)

Section Outcomes.
Context {A B : Type}.

(** The loop of [foldl_list]; an exception raised by [f] leaves the loop and
    the function. *)
Fixpoint foldl_list_raising (a_vals : list A) (start : B)
    (f : B -> A -> outcome B) : outcome B :=
  match a_vals with
  | [] => Returned start
  | next_a :: rest => out ← f start next_a; foldl_list_raising rest out f
  end.

(** [next_a, *remaining_a_vals = a_vals]: unpacking an empty list raises
    [ValueError]. *)
Definition unpack_head (a_vals : list A) : outcome (A * list A) :=
  match a_vals with
  | [] => Raised ValueError
  | next_a :: remaining_a_vals => Returned (next_a, remaining_a_vals)
  end.

(** [foldr_list] with its own recursion bounded: [frames] is the number of
    nested calls of [foldr_list] the interpreter still accepts.  The combiner
    is charged nothing here.  That is the whole stack only for a combiner that
    makes no calls of its own: [f] runs after the inner call has returned, so
    its frame lies no deeper than the frame of the innermost call.
    [foldr_list_stack] below charges the combiner as well. *)
Fixpoint foldr_list_frames (frames : nat) (a_vals : list A) (start : B)
    (f : A -> B -> outcome B) : outcome B :=
  match frames with
  | O => Raised RecursionError
  | S frames' =>
      if (length a_vals =? 0)%nat then Returned start
      else
        '(next_a, remaining_a_vals) ← unpack_head a_vals;
        inner ← foldr_list_frames frames' remaining_a_vals start f;
        f next_a inner
  end.

(** The argument of a recursive call of [foldr_list], related to the
    argument of the call that makes it. *)
Definition foldr_call (callee caller : list A) : Prop :=
  (length caller =? 0)%nat = false
  /\ exists next_a, unpack_head caller = Returned (next_a, callee).

(** [foldr_list] on a call stack with room for [room] more frames, the
    combiner charged too.  A call of [foldr_list] takes one frame; the room
    below that frame is what the recursive call gets and, once that has
    returned, what the call of [f] gets.  The combiner is given its room as
    first argument: its own frame and the frames of whatever it calls have to
    fit in it. *)
Fixpoint foldr_list_stack (room : nat) (a_vals : list A) (start : B)
    (f : nat -> A -> B -> outcome B) : outcome B :=
  match room with
  | O => Raised RecursionError
  | S below =>
      if (length a_vals =? 0)%nat then Returned start
      else
        '(next_a, remaining_a_vals) ← unpack_head a_vals;
        inner ← foldr_list_stack below remaining_a_vals start f;
        f below next_a inner
  end.

(** A combiner that needs [depth] frames, one for itself and the rest for the
    calls it makes, and behaves as [f] when it has them. *)
Definition needing (depth : nat) (f : A -> B -> outcome B)
    : nat -> A -> B -> outcome B :=
  fun room a b =>
    if (depth <=? room)%nat then f a b else Raised RecursionError.

End Outcomes.

(** ** The folds over a combiner given as a relation

    [f b a r] reads: a call [f(b, a)] may return [r].  A combiner that reads a
    clock, a random source or a global variable relates its arguments to more
    than one result. *)

Section Runs.
Context {A B : Type}.

Inductive foldl_runs (f : B -> A -> B -> Prop) : list A -> B -> B -> Prop :=
  | foldl_runs_done start :
      foldl_runs f [] start start
  | foldl_runs_iter next_a rest out out' result :
      f out next_a out' ->
      foldl_runs f rest out' result ->
      foldl_runs f (next_a :: rest) out result.

Inductive foldr_runs (f : A -> B -> B -> Prop) : list A -> B -> B -> Prop :=
  | foldr_runs_empty start :
      foldr_runs f [] start start
  | foldr_runs_rec next_a remaining_a_vals start inner result :
      foldr_runs f remaining_a_vals start inner ->
      f next_a inner result ->
      foldr_runs f (next_a :: remaining_a_vals) start result.

Definition deterministic {X Y : Type} (f : X -> Y -> B -> Prop) : Prop :=
  forall x y r1 r2, f x y r1 -> f x y r2 -> r1 = r2.

Definition graph {X Y : Type} (g : X -> Y -> B) : X -> Y -> B -> Prop :=
  fun x y r => r = g x y.

End Runs.

(** ** The combiners of the notebook *)

Definition map_left (b : list Z) (a : Z) : list Z := b ++ [a].
Definition map_right (a : Z) (b : list Z) : list Z := b ++ [a].

(** [lambda b, a: combine(a, b)] *)
Definition swapped {X Y R : Type} (combine : X -> Y -> R) : Y -> X -> R :=
  fun a b => combine b a.

(** The dataclass [Foo]: [even] is overwritten by [__post_init__]. *)
Record Foo : Type := mkFoo { value : Z; even : bool }.

Definition Foo_post_init (self : Foo) : Foo :=
  {| value := value self; even := (value self mod 2 =? 0) |}.

(** [Foo(next_i)]: the field default [bool()] is [False], then
    [__post_init__] runs. *)
Definition Foo_new (v : Z) : Foo := Foo_post_init {| value := v; even := false |}.

(** [out[key]] on a dictionary: [KeyError] when the key is absent. *)
Definition getitem {V : Type} (out : gmap string V) (key : string) : outcome V :=
  match out !! key with
  | Some v => Returned v
  | None => Raised (KeyError key)
  end.

(** [allocate]: [out.update({k: out[k] + [f]})] for [k] the parity of
    [next_i]; the dictionary passed in is the one returned. *)
Definition allocate (out : gmap string (list Foo)) (next_i : Z)
    : outcome (gmap string (list Foo)) :=
  let f := Foo_new next_i in
  if even f then
    evens ← getitem out "even"; Returned (<["even" := evens ++ [f]]> out)
  else
    odds ← getitem out "odd"; Returned (<["odd" := odds ++ [f]]> out).

(** [xs = list(range(5))] *)
Definition xs : list Z := seqZ 0 5.

(** ** Dictionaries as objects

    [allocate] does not build a new dictionary: [out.update] changes the
    object bound to [out], and [return out] hands that object back.  Objects
    are named by a reference; the store gives the contents of every
    dictionary.  A call returns its outcome together with the store it
    leaves, also when it raises. *)

Section Stateful.
Context {A B S : Type}.

(** The loop of [foldl_list] over a combiner that reads and writes a store. *)
Fixpoint foldl_list_stateful (a_vals : list A) (start : B)
    (f : B -> A -> S -> outcome B * S) (s : S) : outcome B * S :=
  match a_vals with
  | [] => (Returned start, s)
  | next_a :: rest =>
      match f start next_a s with
      | (Returned out, s') => foldl_list_stateful rest out f s'
      | (Raised e, s') => (Raised e, s')
      end
  end.

End Stateful.

(** [allocate] on a reference [out] to a dictionary of the store [h]. *)
Definition allocate_obj (out : nat) (next_i : Z)
    (h : nat -> gmap string (list Foo))
    : outcome nat * (nat -> gmap string (list Foo)) :=
  let f := Foo_new next_i in
  if even f then
    match getitem (h out) "even" with
    | Returned evens =>
        (Returned out, <[out := <["even" := evens ++ [f]]> (h out)]> h)
    | Raised e => (Raised e, h)
    end
  else
    match getitem (h out) "odd" with
    | Returned odds =>
        (Returned out, <[out := <["odd" := odds ++ [f]]> (h out)]> h)
    | Raised e => (Raised e, h)
    end.

(** * Properties *)

(** ** Equations of the two folds *)

Section FoldFacts.
Context {A B : Type}.
Implicit Types (l pre post : list A) (start : B).

Lemma foldl_list_app l1 l2 start (f : B -> A -> B) :
  foldl_list (l1 ++ l2) start f = foldl_list l2 (foldl_list l1 start f) f.
Proof.
  revert start. induction l1 as [|x l1 IH]; intros start; simpl; [done|].
  apply IH.
Qed.

Lemma foldl_list_snoc l x start (f : B -> A -> B) :
  foldl_list (l ++ [x]) start f = f (foldl_list l start f) x.
Proof. by rewrite foldl_list_app. Qed.

Lemma foldl_list_fold_left l start (f : B -> A -> B) :
  foldl_list l start f = fold_left f l start.
Proof. revert start. induction l as [|x l IH]; intros start; simpl; auto. Qed.

Lemma foldr_list_fold_right l start (f : A -> B -> B) :
  foldr_list l start f = fold_right f start l.
Proof. induction l as [|x l IH]; simpl; congruence. Qed.

Lemma foldr_list_app l1 l2 start (f : A -> B -> B) :
  foldr_list (l1 ++ l2) start f = foldr_list l1 (foldr_list l2 start f) f.
Proof. induction l1 as [|x l1 IH]; simpl; congruence. Qed.

Lemma loop_prefix pre post start (f : B -> A -> B) :
  nsteps (loop_step f) (length pre) (start, pre ++ post)
         (foldl_list pre start f, post).
Proof.
  revert start. induction pre as [|x pre IH]; intros start; simpl.
  - constructor.
  - eapply nsteps_l; [constructor | apply IH].
Qed.

(** The loop has one successor state at most, and none once the iterator is
    exhausted. *)
Lemma loop_step_functional (f : B -> A -> B) s s1 s2 :
  loop_step f s s1 -> loop_step f s s2 -> s1 = s2.
Proof. intros H1 H2. destruct H1. by inversion H2. Qed.

Lemma loop_step_exhausted (f : B -> A -> B) out s :
  ~ loop_step f (out, []) s.
Proof. inversion 1. Qed.

Lemma loop_final (f : B -> A -> B) l start result :
  rtc (loop_step f) (start, l) (result, []) -> result = foldl_list l start f.
Proof.
  revert start. induction l as [|x l IH]; intros start Hrun.
  - inversion Hrun as [|? s ? Hstep]; subst; [done|]. inversion Hstep.
  - inversion Hrun as [|? s ? Hstep Hrest]; subst.
    inversion Hstep; subst. simpl. by apply IH.
Qed.

End FoldFacts.

(** ** Outcomes against values *)

Section OutcomeFacts.
Context {A B : Type}.
Implicit Types (l : list A) (start : B).

Lemma foldl_list_raising_total l start (g : B -> A -> B) :
  foldl_list_raising l start (total2 g) = Returned (foldl_list l start g).
Proof. revert start. induction l as [|x l IH]; intros start; simpl; auto. Qed.

Lemma foldr_list_frames_total frames l start (g : A -> B -> B) :
  foldr_list_frames frames l start (total2 g)
  = if (length l <? frames)%nat then Returned (foldr_list l start g)
    else Raised RecursionError.
Proof.
  revert l. induction frames as [|n IH]; intros l; [done|].
  destruct l as [|x l]; [done|].
  cbn [foldr_list_frames length Nat.eqb unpack_head foldr_list mbind outcome_bind].
  rewrite IH.
  change (S (length l) <? S n)%nat with (length l <? n)%nat.
  by destruct (length l <? n)%nat.
Qed.

Lemma foldr_call_tail callee caller :
  @foldr_call A callee caller <-> exists next_a, caller = next_a :: callee.
Proof.
  unfold foldr_call. split.
  - intros [_ [a Ha]]. destruct caller; simplify_eq/=. eauto.
  - intros [a ->]. split; [done|]. by exists a.
Qed.

Lemma foldr_call_wf : well_founded (@foldr_call A).
Proof.
  intros l. induction l as [|x l IH]; constructor; intros callee Hc;
    apply foldr_call_tail in Hc as [a Ha]; simplify_eq. done.
Qed.

Lemma foldr_list_stack_step below x l start
    (f : nat -> A -> B -> outcome B) :
  foldr_list_stack (S below) (x :: l) start f
  = foldr_list_stack below l start f ≫= f below x.
Proof. reflexivity. Qed.

Lemma foldr_list_stack_deep room l start (f : nat -> A -> B -> outcome B) :
  (room <= length l)%nat ->
  foldr_list_stack room l start f = Raised RecursionError.
Proof.
  revert l. induction room as [|n IH]; intros l Hlen; [done|].
  destruct l as [|x l]; simpl in Hlen; [lia|].
  rewrite foldr_list_stack_step, IH by lia. done.
Qed.

(** A combiner that needs its own frame only is charged nothing more than
    [foldr_list_frames] charges. *)
Lemma foldr_list_stack_needing_1 room l start (f : A -> B -> outcome B) :
  foldr_list_stack room l start (needing 1 f)
  = foldr_list_frames room l start f.
Proof.
  revert l. induction room as [|n IH]; intros l; [done|].
  destruct l as [|x l]; [done|].
  rewrite foldr_list_stack_step, IH.
  change (foldr_list_frames (S n) (x :: l) start f)
    with (foldr_list_frames n l start f ≫= f x).
  destruct n as [|n]; [done|].
  by destruct (foldr_list_frames (S n) l start f).
Qed.

(** Short of the room for the list and the combiner, a non-empty list gives
    [RecursionError], in the descent or in the combiner's call for the last
    element. *)
Lemma foldr_list_stack_short room depth x l start (f : A -> B -> outcome B) :
  (room < length (x :: l) + depth)%nat ->
  foldr_list_stack room (x :: l) start (needing depth f)
  = Raised RecursionError.
Proof.
  revert x l. induction room as [|n IH]; intros x l Hroom; [done|].
  rewrite foldr_list_stack_step. destruct l as [|y l].
  - destruct n as [|n]; [done|]. cbn [foldr_list_stack length Nat.eqb].
    cbn [mbind outcome_bind]. unfold needing.
    by rewrite (proj2 (Nat.leb_gt _ _)) by (simpl in *; lia).
  - by rewrite IH by (simpl in *; lia).
Qed.

Lemma foldr_list_stack_total room calls l start (g : A -> B -> B) :
  foldr_list_stack room l start (needing (S calls) (total2 g))
  = if (length l + match l with [] => 1 | _ :: _ => S calls end <=? room)%nat
    then Returned (foldr_list l start g)
    else Raised RecursionError.
Proof.
  revert l. induction room as [|n IH]; intros l.
  - by destruct l.
  - destruct l as [|x l]; [done|].
    rewrite foldr_list_stack_step, IH.
    cbn [length foldr_list].
    destruct (Nat.leb_spec (S (length l) + S calls) (S n)) as [Hfit|Hshort].
    + rewrite (proj2 (Nat.leb_le _ _)) by (destruct l; simpl in *; lia).
      cbn [mbind outcome_bind]. unfold needing, total2.
      by rewrite (proj2 (Nat.leb_le _ _)) by lia.
    + destruct l as [|y l].
      * destruct (Nat.leb_spec (length (@nil A) + 1) n); [|done].
        cbn [mbind outcome_bind]. unfold needing.
        by rewrite (proj2 (Nat.leb_gt _ _)) by (simpl in *; lia).
      * by rewrite (proj2 (Nat.leb_gt _ _)) by (simpl in *; lia).
Qed.

End OutcomeFacts.

(** ** Runs over relational combiners *)

Section RunFacts.
Context {A B : Type}.
Implicit Types (l : list A) (start : B).

Lemma graph_deterministic {X Y : Type} (g : X -> Y -> B) :
  deterministic (graph g).
Proof. unfold deterministic, graph. congruence. Qed.

Lemma foldl_runs_graph l start (g : B -> A -> B) result :
  foldl_runs (graph g) l start result <-> result = foldl_list l start g.
Proof.
  split.
  - induction 1 as [|????? Hf _ IH]; [done|]. unfold graph in Hf. by subst.
  - intros ->. revert start.
    induction l as [|x l IH]; intros start; simpl; econstructor; [done|apply IH].
Qed.

Lemma foldr_runs_graph l start (g : A -> B -> B) result :
  foldr_runs (graph g) l start result <-> result = foldr_list l start g.
Proof.
  split.
  - induction 1 as [|????? _ IH Hf]; [done|]. unfold graph in Hf. by subst.
  - intros ->. induction l as [|x l IH]; simpl; econstructor; [apply IH|done].
Qed.

Lemma foldl_runs_functional (f : B -> A -> B -> Prop) l start r1 r2 :
  deterministic f ->
  foldl_runs f l start r1 -> foldl_runs f l start r2 -> r1 = r2.
Proof.
  intros Hdet H1. revert r2.
  induction H1 as [|x rest out out' r Hf _ IH]; intros r2 H2.
  - by inversion H2.
  - inversion H2 as [|????? Hf2 Hrest2]; subst.
    rewrite <- (Hdet _ _ _ _ Hf Hf2) in Hrest2. by apply IH.
Qed.

Lemma foldr_runs_functional (f : A -> B -> B -> Prop) l start r1 r2 :
  deterministic f ->
  foldr_runs f l start r1 -> foldr_runs f l start r2 -> r1 = r2.
Proof.
  intros Hdet H1. revert r2.
  induction H1 as [|x rest start inner r _ IH Hf]; intros r2 H2.
  - by inversion H2.
  - inversion H2 as [|????? Hrest2 Hf2]; subst.
    rewrite <- (IH _ Hrest2) in Hf2. by eapply Hdet.
Qed.

End RunFacts.

(** ** The parity dictionary *)

Lemma Foo_new_even v : even (Foo_new v) = bool_decide (v mod 2 = 0).
Proof.
  unfold Foo_new, Foo_post_init; simpl.
  destruct (Z.eqb_spec (v mod 2) 0) as [H|H].
  - by rewrite bool_decide_eq_true_2.
  - by rewrite bool_decide_eq_false_2.
Qed.

Lemma allocate_even (out : gmap string (list Foo)) (next_i : Z) evens :
  next_i mod 2 = 0 ->
  out !! "even" = Some evens ->
  allocate out next_i = Returned (<["even" := evens ++ [Foo_new next_i]]> out).
Proof.
  intros Hpar He. unfold allocate, getitem. cbv zeta.
  rewrite Foo_new_even, bool_decide_eq_true_2 by done. by rewrite He.
Qed.

Lemma allocate_odd (out : gmap string (list Foo)) (next_i : Z) odds :
  next_i mod 2 ≠ 0 ->
  out !! "odd" = Some odds ->
  allocate out next_i = Returned (<["odd" := odds ++ [Foo_new next_i]]> out).
Proof.
  intros Hpar Ho. unfold allocate, getitem. cbv zeta.
  rewrite Foo_new_even, bool_decide_eq_false_2 by done. by rewrite Ho.
Qed.

(** Started on a dictionary that has both keys, the fold appends the even
    inputs under ["even"] and the odd ones under ["odd"], each in input order,
    and leaves every other key alone. *)
Lemma allocate_fold (l : list Z) (out : gmap string (list Foo)) evens odds :
  out !! "even" = Some evens ->
  out !! "odd" = Some odds ->
  foldl_list_raising l out allocate
  = Returned (<["even" := evens ++ (Foo_new <$> filter (λ v, v mod 2 = 0) l)]>
               (<["odd" := odds ++ (Foo_new <$> filter (λ v, v mod 2 ≠ 0) l)]> out)).
Proof.
  revert out evens odds.
  induction l as [|x l IH]; intros out evens odds He Ho.
  - simpl. rewrite !app_nil_r. f_equal.
    rewrite (insert_id _ "odd" odds) by done. by rewrite insert_id.
  - cbn [foldl_list_raising].
    destruct (decide (x mod 2 = 0)) as [Hpar|Hpar].
    + rewrite (allocate_even _ _ _ Hpar He). cbn [mbind outcome_bind].
      erewrite IH; [|by rewrite lookup_insert_eq|by rewrite lookup_insert_ne].
      f_equal. rewrite filter_cons_True by done.
      rewrite (filter_cons_False (λ v, v mod 2 ≠ 0)) by (intros ?; done).
      rewrite fmap_cons, <- app_assoc. simpl.
      rewrite (insert_insert_ne _ "odd" "even") by done.
      rewrite insert_insert_eq.
      by rewrite (insert_insert_ne _ "even" "odd") by done.
    + rewrite (allocate_odd _ _ _ Hpar Ho). cbn [mbind outcome_bind].
      erewrite IH; [|by rewrite lookup_insert_ne|by rewrite lookup_insert_eq].
      f_equal. rewrite filter_cons_False by done.
      rewrite (filter_cons_True (λ v, v mod 2 ≠ 0)) by done.
      rewrite fmap_cons, <- app_assoc. simpl.
      by rewrite insert_insert_eq.
Qed.

(** ** Commutative and associative combiners *)

Section CommAssoc.
Context {T : Type} (combine : T -> T -> T).
Hypothesis combine_comm : forall a b, combine b a = combine a b.
Hypothesis combine_assoc :
  forall a b c, combine a (combine b c) = combine (combine a b) c.

(** An element combined into the start value can be combined in last. *)
Lemma foldl_list_start_last (l : list T) (start x : T) :
  foldl_list l (combine start x) combine
  = combine (foldl_list l start combine) x.
Proof.
  revert start. induction l as [|y l IH]; intros start; simpl; [done|].
  rewrite <- IH. f_equal.
  rewrite <- !combine_assoc. f_equal. apply combine_comm.
Qed.

Lemma foldl_foldr_swapped (l : list T) (start : T) :
  foldl_list l start combine = foldr_list l start (swapped combine).
Proof.
  induction l as [|x l IH]; simpl; [done|].
  unfold swapped at 1. rewrite <- IH. apply foldl_list_start_last.
Qed.

End CommAssoc.

(** Commutativity alone is not enough: [2 * (a + b)] is commutative and the
    two folds of [[1; 2]] differ. *)
Example comm_not_assoc_folds_differ :
  let combine := fun a b => 2 * (a + b) in
  (forall a b, combine b a = combine a b)
  /\ foldl_list [1; 2] 0 combine = 8
  /\ foldr_list [1; 2] 0 (swapped combine) = 10.
Proof. cbv zeta. split; [intros; lia | done]. Qed.

(** The sums of the notebook. *)
Example xs_sum : foldl_list xs 0 (fun b a => b + a) = 10.
Proof. reflexivity. Qed.

Example xs_sum2 : foldr_list xs 0 (fun a b => a + b) = 10.
Proof. reflexivity. Qed.

(** * The claims *)

(** C1: [foldr_list] is the right fold of the recursive definition: it returns
    [start] on the empty list and [f head (fold of the tail)] on a list with a
    head, hence [f x start] on a one-element list; it agrees with [RightFold]
    on every list, and so does the recursion run on a call stack that has one
    frame per element and one more. *)
Theorem foldr_list_recursive_definition {A B : Type}
    (a_vals : list A) (start : B) (f : A -> B -> B) :
  foldr_list [] start f = start
  /\ (forall head tail,
        foldr_list (head :: tail) start f = f head (foldr_list tail start f))
  /\ (forall x, foldr_list [x] start f = f x start)
  /\ foldr_list a_vals start f = RightFold a_vals start f
  /\ foldr_list_frames (S (length a_vals)) a_vals start (total2 f)
     = Returned (RightFold a_vals start f).
Proof.
  assert (Heq : forall l, foldr_list l start f = RightFold l start f).
  { induction l as [|x l IH]; simpl; congruence. }
  repeat split; try done.
  rewrite foldr_list_frames_total, Heq.
  by rewrite (proj2 (Nat.ltb_lt _ _)) by lia.
Qed.

(** C2: [foldl_list] walks the list from the first element to the last.  Once
    the loop has consumed a prefix [pre], the accumulator is the fold of [pre]
    and the rest of the list is still to come; consuming one more element
    [next_a] replaces the accumulator [out] by [f out next_a]; the value
    returned is the accumulator when nothing is left, that is
    [f (... (f (f start x0) x1) ...) xn]. *)
Theorem foldl_list_forward_order {A B : Type}
    (pre post : list A) (start : B) (f : B -> A -> B) :
  nsteps (loop_step f) (length pre) (start, pre ++ post)
         (foldl_list pre start f, post)
  /\ foldl_list (pre ++ post) start f
     = foldl_list post (foldl_list pre start f) f
  /\ (forall next_a,
        foldl_list (pre ++ [next_a]) start f = f (foldl_list pre start f) next_a)
  /\ foldl_list [] start f = start
  /\ foldl_list pre start f = fold_left f pre start.
Proof.
  split; [apply loop_prefix|].
  split; [apply foldl_list_app|].
  split; [intros; apply foldl_list_snoc|].
  split; [done | apply foldl_list_fold_left].
Qed.

(** C3: both folds return [start] unchanged on the empty list, whatever the
    combiner: as values for total combiners, and as outcomes for combiners
    that may raise (the combiner is never called). *)
Theorem fold_empty_returns_start {A B : Type}
    (start : B) (fl : B -> A -> B) (fr : A -> B -> B) :
  foldl_list [] start fl = start
  /\ foldr_list [] start fr = start
  /\ (forall f : B -> A -> outcome B,
        foldl_list_raising [] start f = Returned start)
  /\ (forall (frames : nat) (f : A -> B -> outcome B),
        foldr_list_frames (S frames) [] start f = Returned start).
Proof. repeat split. Qed.

(** C4, as the code has it: [foldr_list] on a list of length [N] nests [N + 1]
    calls of itself and calls the combiner for the last element from the
    [N]-th of them.  With room for at most [N] frames it raises
    [RecursionError], whatever the combiner.  With a combiner that takes its
    own frame and [calls] more for what it calls, and does not raise
    otherwise, a non-empty list needs room for [N + 1 + calls] frames and the
    empty list for one: the fold returns the right fold when it has that room
    and raises [RecursionError] when it has not.  No bound holds for every
    [N]. *)
Theorem foldr_list_stack_usage {A B : Type}
    (room calls short : nat) (a_vals : list A) (start : B) (f : A -> B -> B) :
  foldr_list_stack room a_vals start (needing (S calls) (total2 f))
  = (if (length a_vals
         + match a_vals with [] => 1 | _ :: _ => S calls end <=? room)%nat
     then Returned (foldr_list a_vals start f)
     else Raised RecursionError)
  /\ (forall g : nat -> A -> B -> outcome B,
        foldr_list_stack (length a_vals - short) a_vals start g
        = Raised RecursionError).
Proof.
  split; [apply foldr_list_stack_total|].
  intros g. apply foldr_list_stack_deep. lia.
Qed.

(** The notebook's [allocate] behind a lambda needs the lambda's frame and at
    least one more: with room for four frames and three elements the fold
    raises [RecursionError], and the missing ["odd"] key is never looked
    up. *)
Example foldr_list_stack_allocate (calls : nat) :
  foldr_list_stack 4 [1; 2; 0] {["even" := []]}
    (needing (2 + calls) (swapped allocate))
  = Raised RecursionError.
Proof. apply foldr_list_stack_short. simpl. lia. Qed.

(** C4, as stated, fails: under a stack of 1000 frames (the default limit of
    CPython) the fold of [list(range(100000))] raises [RecursionError], and no
    stack depth is enough for all lists. *)
Lemma foldr_list_exhausts_stack :
  foldr_list_frames 1000 (seqZ 0 100000) 0 (total2 Z.add) = Raised RecursionError
  /\ ~ (exists bound : nat, forall a_vals : list Z,
          foldr_list_frames bound a_vals 0 (total2 Z.add) <> Raised RecursionError).
Proof.
  split.
  { rewrite foldr_list_frames_total, length_seqZ.
    by rewrite (proj2 (Nat.ltb_ge _ _)) by lia. }
  intros [bound Hb]. apply (Hb (replicate bound 0)).
  rewrite foldr_list_frames_total, length_replicate.
  by rewrite (proj2 (Nat.ltb_ge _ _)) by lia.
Qed.

(** C5: for a combiner that is commutative and associative, the left fold
    equals the right fold with the arguments of the combiner swapped, from any
    start value (the claim's [0] for integer addition). *)
Theorem foldl_eq_foldr_swapped {T : Type}
    (combine : T -> T -> T) (l : list T) (start : T) :
  (forall a b, combine b a = combine a b) ->
  (forall a b c, combine a (combine b c) = combine (combine a b) c) ->
  foldl_list l start combine = foldr_list l start (swapped combine).
Proof. intros Hc Ha. by apply foldl_foldr_swapped. Qed.

Lemma foldl_eq_foldr_swapped_witness :
  foldl_list xs 0 Z.add = foldr_list xs 0 (swapped Z.add).
Proof.
  apply (foldl_eq_foldr_swapped Z.add xs 0); intros; lia.
Defined.

(** C6: [map_left] under the left fold keeps the order of [xs], [map_right]
    under the right fold reverses it; the two results differ, although
    [map_right] is [map_left] with its arguments swapped. *)
Theorem map_left_map_right_order :
  foldl_list xs [] map_left = [0; 1; 2; 3; 4]
  /\ foldr_list xs [] map_right = [4; 3; 2; 1; 0]
  /\ foldl_list xs [] map_left <> foldr_list xs [] map_right
  /\ map_right = swapped map_left.
Proof. repeat split; done. Qed.

(** C7: folding integers with [allocate] from [{"even": [], "odd": []}] yields
    the even inputs under ["even"] and the odd inputs under ["odd"], each list
    in the order of the input; on [xs] this is
    [{"even": [Foo(0), Foo(2), Foo(4)], "odd": [Foo(1), Foo(3)]}]. *)
Theorem allocate_fold_by_parity (l : list Z) :
  foldl_list_raising l {["even" := []; "odd" := []]} allocate
  = Returned {["even" := Foo_new <$> filter (λ v, v mod 2 = 0) l;
               "odd" := Foo_new <$> filter (λ v, v mod 2 ≠ 0) l]}
  /\ foldl_list_raising xs {["even" := []; "odd" := []]} allocate
     = Returned {["even" := [mkFoo 0 true; mkFoo 2 true; mkFoo 4 true];
                  "odd" := [mkFoo 1 false; mkFoo 3 false]]}.
Proof.
  assert (Hgen : forall l' : list Z,
    foldl_list_raising l' {["even" := []; "odd" := []]} allocate
    = Returned {["even" := Foo_new <$> filter (λ v, v mod 2 = 0) l';
                 "odd" := Foo_new <$> filter (λ v, v mod 2 ≠ 0) l']}).
  { intros l'. by rewrite (allocate_fold l' _ [] []). }
  split; [apply Hgen|]. by rewrite Hgen.
Qed.

(** C8: a fold over a deterministic combiner is deterministic: any two runs of
    [foldl_list], and any two runs of [foldr_list], on the same list and start
    value return the same result. *)
Theorem folds_deterministic {A B : Type} (a_vals : list A) (start : B)
    (fl : B -> A -> B -> Prop) (fr : A -> B -> B -> Prop) :
  deterministic fl ->
  deterministic fr ->
  (forall r1 r2,
     foldl_runs fl a_vals start r1 -> foldl_runs fl a_vals start r2 -> r1 = r2)
  /\ (forall r1 r2,
        foldr_runs fr a_vals start r1 -> foldr_runs fr a_vals start r2 -> r1 = r2).
Proof.
  intros Hl Hr. split; intros r1 r2 H1 H2.
  - by eapply foldl_runs_functional.
  - by eapply foldr_runs_functional.
Qed.

Lemma folds_deterministic_witness :
  (forall r1 r2,
     foldl_runs (graph Z.add) xs 0 r1 -> foldl_runs (graph Z.add) xs 0 r2 ->
     r1 = r2)
  /\ (forall r1 r2,
        foldr_runs (graph Z.add) xs 0 r1 -> foldr_runs (graph Z.add) xs 0 r2 ->
        r1 = r2).
Proof.
  apply (folds_deterministic xs 0 (graph Z.add) (graph Z.add));
    unfold deterministic, graph; intros; congruence.
Defined.

(** A combiner with two possible results gives a fold with two possible
    results: determinism of the combiner is needed. *)
Example flaky_combiner_two_results :
  let flaky := fun (x y r : Z) => r = x + y \/ r = x + y + 1 in
  foldl_runs flaky [1] 0 1 /\ foldl_runs flaky [1] 0 2
  /\ foldr_runs flaky [1] 0 1 /\ foldr_runs flaky [1] 0 2.
Proof.
  cbv zeta. split; [|split; [|split]].
  - eapply foldl_runs_iter; [by left | constructor].
  - eapply foldl_runs_iter; [by right | constructor].
  - eapply foldr_runs_rec; [constructor | by left].
  - eapply foldr_runs_rec; [constructor | by right].
Qed.

(** C9: the right fold is the left fold of the reversed list with the
    arguments of the combiner swapped, for every combiner. *)
Theorem foldr_list_reverse_foldl {A B : Type}
    (l : list A) (start : B) (f : A -> B -> B) :
  foldr_list l start f = foldl_list (reverse l) start (swapped f).
Proof.
  induction l as [|x l IH]; simpl; [done|].
  by rewrite reverse_cons, foldl_list_snoc, <- IH.
Qed.

(** C10: [foldr_list] terminates.  A recursive call is made on the tail of the
    caller's list, which is one element shorter, so the calls are well founded;
    given more frames than the list has elements, the run returns the value of
    the right fold. *)
Theorem foldr_list_terminates {A B : Type}
    (a_vals : list A) (start : B) (f : A -> B -> B) (frames : nat) :
  (length a_vals < frames)%nat ->
  foldr_list_frames frames a_vals start (total2 f)
  = Returned (foldr_list a_vals start f)
  /\ Acc foldr_call a_vals
  /\ (forall remaining_a_vals,
        foldr_call remaining_a_vals a_vals ->
        S (length remaining_a_vals) = length a_vals).
Proof.
  intros Hlt. split; [|split].
  - rewrite foldr_list_frames_total.
    by rewrite (proj2 (Nat.ltb_lt _ _)).
  - apply foldr_call_wf.
  - intros callee [a ->]%foldr_call_tail. done.
Qed.

Lemma foldr_list_terminates_witness :
  (length xs < 6)%nat
  /\ foldr_list_frames 6 xs 0 (total2 Z.add) = Returned (foldr_list xs 0 Z.add)
  /\ Acc foldr_call xs
  /\ (forall remaining_a_vals,
        foldr_call remaining_a_vals xs ->
        S (length remaining_a_vals) = length xs).
Proof.
  assert (Hlt : (length xs < 6)%nat) by (vm_compute; lia).
  split; [exact Hlt | exact (foldr_list_terminates xs 0 Z.add 6 Hlt)].
Defined.

(** * Further properties of the code *)

(** ** Exceptions and the call stack *)

Section RaisingFacts.
Context {A B : Type}.
Implicit Types (l pre post : list A) (start : B).

Lemma foldl_list_raising_bind l1 l2 start (f : B -> A -> outcome B) :
  foldl_list_raising (l1 ++ l2) start f
  = foldl_list_raising l1 start f ≫= (λ out, foldl_list_raising l2 out f).
Proof.
  revert start. induction l1 as [|x l1 IH]; intros start; simpl; [done|].
  destruct (f start x) as [out|e]; simpl; [apply IH | done].
Qed.

Lemma foldr_list_frames_step frames x l start (f : A -> B -> outcome B) :
  foldr_list_frames (S frames) (x :: l) start f
  = foldr_list_frames frames l start f ≫= f x.
Proof. reflexivity. Qed.

Lemma foldr_list_frames_deep frames l start (f : A -> B -> outcome B) :
  (frames <= length l)%nat ->
  foldr_list_frames frames l start f = Raised RecursionError.
Proof.
  revert l. induction frames as [|n IH]; intros l Hlen; [done|].
  destruct l as [|x l]; simpl in Hlen; [lia|].
  rewrite foldr_list_frames_step, IH by lia. done.
Qed.

Lemma foldr_list_frames_reverse frames l start (f : A -> B -> outcome B) :
  (length l < frames)%nat ->
  foldr_list_frames frames l start f
  = foldl_list_raising (reverse l) start (swapped f).
Proof.
  revert l. induction frames as [|n IH]; intros l Hlen; [lia|].
  destruct l as [|x l]; [done|]. simpl in Hlen.
  rewrite foldr_list_frames_step, IH by lia.
  rewrite reverse_cons, foldl_list_raising_bind.
  destruct (foldl_list_raising (reverse l) start (swapped f)) as [inner|e];
    simpl; [|done].
  unfold swapped at 1. by destruct (f x inner).
Qed.

Lemma foldr_list_stack_reverse room depth l start
    (f : nat -> A -> B -> outcome B) (g : A -> B -> outcome B) :
  (forall r a b, (depth <= r)%nat -> f r a b = g a b) ->
  (length l < room)%nat ->
  (length l + depth <= room)%nat ->
  foldr_list_stack room l start f
  = foldl_list_raising (reverse l) start (swapped g).
Proof.
  intros Hf. revert l. induction room as [|n IH]; intros l Hlen Hroom; [lia|].
  destruct l as [|x l]; [done|]. simpl in Hlen, Hroom.
  rewrite foldr_list_stack_step, IH by lia.
  rewrite reverse_cons, foldl_list_raising_bind.
  destruct (foldl_list_raising (reverse l) start (swapped g)) as [inner|e];
    simpl; [|done].
  rewrite Hf by lia. unfold swapped at 1. by destruct (g x inner).
Qed.

End RaisingFacts.

(** X1: [foldl_list] fails fast.  When the combiner raises on an element, the
    fold raises the same exception and the elements after it play no part. *)
Theorem foldl_list_stops_at_first_failure {A B : Type}
    (pre post : list A) (x : A) (start out : B)
    (f : B -> A -> outcome B) (e : exn) :
  foldl_list_raising pre start f = Returned out ->
  f out x = Raised e ->
  foldl_list_raising (pre ++ x :: post) start f = Raised e.
Proof.
  intros Hpre Hx. rewrite foldl_list_raising_bind, Hpre. simpl. by rewrite Hx.
Qed.

Lemma foldl_list_stops_at_first_failure_witness :
  foldl_list_raising ([0] ++ 1 :: [2; 3]) {["even" := []]} allocate
  = Raised (KeyError "odd").
Proof.
  apply (foldl_list_stops_at_first_failure [0] [2; 3] 1 {["even" := []]}
           {["even" := [Foo_new 0]]} allocate (KeyError "odd"));
    reflexivity.
Defined.

(** X2: [foldl_list] raises nothing of its own.  An exception that leaves the
    fold was raised by the combiner, called on some element with the
    accumulator of the elements before it. *)
Theorem foldl_list_raises_only_from_combiner {A B : Type}
    (l : list A) (start : B) (f : B -> A -> outcome B) (e : exn) :
  foldl_list_raising l start f = Raised e ->
  exists pre x post out,
    l = pre ++ x :: post
    /\ foldl_list_raising pre start f = Returned out
    /\ f out x = Raised e.
Proof.
  revert start. induction l as [|y l IH]; intros start Hr; [done|].
  simpl in Hr. destruct (f start y) as [out'|e'] eqn:Hy; simpl in Hr.
  - destruct (IH _ Hr) as (pre & x & post & out & -> & Hpre & Hx).
    exists (y :: pre), x, post, out. simpl. rewrite Hy. simpl. done.
  - exists [], y, l, start. simplify_eq. done.
Qed.

Lemma foldl_list_raises_only_from_combiner_witness :
  exists pre x post out,
    [0; 1; 2] = pre ++ x :: post
    /\ foldl_list_raising pre {["even" := []]} allocate = Returned out
    /\ allocate out x = Raised (KeyError "odd").
Proof.
  apply (foldl_list_raises_only_from_combiner [0; 1; 2] {["even" := []]}
           allocate (KeyError "odd")).
  reflexivity.
Defined.

(** X3: a left fold over a concatenation is the fold of the first list
    followed by the fold of the second from the accumulator reached, with
    exceptions of the first part cutting the second short. *)
Theorem foldl_list_raising_app {A B : Type}
    (l1 l2 : list A) (start : B) (f : B -> A -> outcome B) :
  foldl_list_raising (l1 ++ l2) start f
  = match foldl_list_raising l1 start f with
    | Returned out => foldl_list_raising l2 out f
    | Raised e => Raised e
    end.
Proof. apply foldl_list_raising_bind. Qed.

(** X4: a right fold over a concatenation folds the second list first and uses
    its result as the start value for the first list. *)
Theorem foldr_list_concat {A B : Type}
    (l1 l2 : list A) (start : B) (f : A -> B -> B) :
  foldr_list (l1 ++ l2) start f = foldr_list l1 (foldr_list l2 start f) f.
Proof. apply foldr_list_app. Qed.

(** X5: when the list has at least as many elements as the stack has room for
    frames, [foldr_list] raises [RecursionError] whatever the combiner is: the
    descent fails before the combiner is called once. *)
Theorem foldr_list_overflow_before_combiner {A B : Type}
    (frames : nat) (a_vals : list A) (start : B) (f : A -> B -> outcome B) :
  (frames <= length a_vals)%nat ->
  foldr_list_frames frames a_vals start f = Raised RecursionError.
Proof. apply foldr_list_frames_deep. Qed.

Lemma foldr_list_overflow_before_combiner_witness :
  foldr_list_frames 5 xs 0 (fun _ _ => Raised ValueError)
  = Raised RecursionError.
Proof.
  apply (foldr_list_overflow_before_combiner 5 xs 0
           (fun _ _ => Raised ValueError)).
  vm_compute. lia.
Defined.

(** X6: once the stack has room for the list and for the combiner, the outcome
    of [foldr_list] no longer depends on how much room there is.  The room
    needed is more than one frame per element and, at the call for the last
    element, the [depth] frames from which on the combiner behaves the
    same. *)
Theorem foldr_list_room_irrelevant {A B : Type}
    (n m depth : nat) (a_vals : list A) (start : B)
    (f : nat -> A -> B -> outcome B) :
  (forall r r' a b, (depth <= r)%nat -> (depth <= r')%nat ->
                    f r a b = f r' a b) ->
  (length a_vals < n)%nat -> (length a_vals + depth <= n)%nat ->
  (length a_vals < m)%nat -> (length a_vals + depth <= m)%nat ->
  foldr_list_stack n a_vals start f = foldr_list_stack m a_vals start f.
Proof.
  intros Hf Hn Hnd Hm Hmd.
  rewrite (foldr_list_stack_reverse n depth a_vals start f (f depth)),
          (foldr_list_stack_reverse m depth a_vals start f (f depth));
    [done | auto..].
Qed.

Lemma foldr_list_room_irrelevant_witness :
  foldr_list_stack 6 xs 0 (needing 1 (total2 Z.add))
  = foldr_list_stack 1000 xs 0 (needing 1 (total2 Z.add)).
Proof.
  apply (foldr_list_room_irrelevant 6 1000 1 xs 0 (needing 1 (total2 Z.add))).
  - intros r r' a b Hr Hr'. unfold needing.
    by rewrite !(proj2 (Nat.leb_le _ _)).
  - vm_compute; lia.
  - vm_compute; lia.
  - vm_compute; lia.
  - vm_compute; lia.
Defined.

(** X7: when the stack has room for the list and for the combiner,
    [foldr_list] has the outcome that [foldl_list], run where the stack is no
    constraint, has on the reversed list with the combiner's arguments
    swapped, also when the combiner raises: the same calls are made in the
    same order, so the same value or the same exception comes out.  [g] is
    what the combiner does when it has the [depth] frames it needs. *)
Theorem foldr_list_outcome_as_reversed_foldl {A B : Type}
    (room depth : nat) (a_vals : list A) (start : B)
    (f : nat -> A -> B -> outcome B) (g : A -> B -> outcome B) :
  (forall r a b, (depth <= r)%nat -> f r a b = g a b) ->
  (length a_vals < room)%nat ->
  (length a_vals + depth <= room)%nat ->
  foldr_list_stack room a_vals start f
  = foldl_list_raising (reverse a_vals) start (swapped g).
Proof. intros Hf Hlen Hroom. by eapply foldr_list_stack_reverse. Qed.

Lemma foldr_list_outcome_as_reversed_foldl_witness :
  foldr_list_stack 6 xs 0 (needing 1 (total2 Z.add))
  = foldl_list_raising (reverse xs) 0 (swapped (total2 Z.add)).
Proof.
  apply (foldr_list_outcome_as_reversed_foldl 6 1 xs 0
           (needing 1 (total2 Z.add)) (total2 Z.add)).
  - intros r a b Hr. unfold needing. by rewrite (proj2 (Nat.leb_le _ _)).
  - vm_compute; lia.
  - vm_compute; lia.
Defined.

(** X8: an exception that leaves [foldr_list] is either the [RecursionError]
    of a stack too short for the list, or one the combiner raised on an
    element of the list; the unpacking of [a_vals] never fails. *)
Theorem foldr_list_raise_origin {A B : Type}
    (frames : nat) (a_vals : list A) (start : B) (f : A -> B -> outcome B)
    (e : exn) :
  foldr_list_frames frames a_vals start f = Raised e ->
  (e = RecursionError /\ (frames <= length a_vals)%nat)
  \/ (exists a b, a ∈ a_vals /\ f a b = Raised e).
Proof.
  revert a_vals. induction frames as [|n IH]; intros l Hr.
  - left. simpl in Hr. split; [congruence | lia].
  - destruct l as [|x l]; [done|].
    rewrite foldr_list_frames_step in Hr.
    destruct (foldr_list_frames n l start f) as [inner|e'] eqn:Hin;
      simpl in Hr.
    + right. exists x, inner. split; [left | done].
    + simplify_eq. destruct (IH _ Hin) as [[-> Hlen]|(a & b & Ha & Hf)].
      * left. split; [done | simpl; lia].
      * right. exists a, b. split; [by right | done].
Qed.

Lemma foldr_list_raise_origin_witness :
  (RecursionError = RecursionError /\ (3 <= length xs)%nat)
  \/ (exists a b, a ∈ xs /\ total2 Z.add a b = Raised RecursionError).
Proof.
  apply (foldr_list_raise_origin 3 xs 0 (total2 Z.add) RecursionError).
  reflexivity.
Defined.

(** X9: folding with [map_left] from the left appends the list to the start
    list in order; folding with [map_right] from the right appends it
    reversed. *)
Theorem map_folds_append (l start : list Z) :
  foldl_list l start map_left = start ++ l
  /\ foldr_list l start map_right = start ++ reverse l.
Proof.
  split.
  - revert start. induction l as [|x l IH]; intros start; simpl.
    + by rewrite app_nil_r.
    + rewrite IH. unfold map_left. by rewrite <- app_assoc.
  - induction l as [|x l IH]; simpl.
    + by rewrite app_nil_r.
    + rewrite IH, reverse_cons. unfold map_right. by rewrite <- app_assoc.
Qed.

(** ** The parity dictionary: keys, errors, objects *)

Lemma allocate_returned (out out' : gmap string (list Foo)) (next_i : Z) :
  allocate out next_i = Returned out' ->
  exists key items,
    (key = "even" \/ key = "odd")
    /\ out !! key = Some items
    /\ out' = <[key := items ++ [Foo_new next_i]]> out.
Proof.
  unfold allocate, getitem. cbv zeta.
  destruct (even (Foo_new next_i)).
  - destruct (out !! "even") as [evens|] eqn:He; simpl; [|done].
    intros [= <-]. exists "even", evens. auto.
  - destruct (out !! "odd") as [odds|] eqn:Ho; simpl; [|done].
    intros [= <-]. exists "odd", odds. auto.
Qed.

Lemma allocate_obj_allocate (out : nat) (next_i : Z)
    (h : nat -> gmap string (list Foo)) :
  allocate_obj out next_i h
  = match allocate (h out) next_i with
    | Returned d => (Returned out, <[out := d]> h)
    | Raised e => (Raised e, h)
    end.
Proof.
  unfold allocate_obj, allocate. cbv zeta.
  destruct (even (Foo_new next_i)).
  - by destruct (getitem (h out) "even").
  - by destruct (getitem (h out) "odd").
Qed.

(** X10: [allocate] raises [KeyError] for the key of the number's parity when
    the dictionary does not have it; it never creates a key. *)
Theorem allocate_missing_key (out : gmap string (list Foo)) (next_i : Z) :
  out !! (if even (Foo_new next_i) then "even" else "odd") = None ->
  allocate out next_i
  = Raised (KeyError (if even (Foo_new next_i) then "even" else "odd")).
Proof.
  unfold allocate, getitem. cbv zeta.
  destruct (even (Foo_new next_i)); intros ->; done.
Qed.

Lemma allocate_missing_key_witness :
  allocate {["odd" := []]} (-4)
  = Raised (KeyError (if even (Foo_new (-4)) then "even" else "odd")).
Proof.
  apply (allocate_missing_key {["odd" := []]} (-4)). reflexivity.
Defined.

(** X11: a fold with [allocate] over a dictionary that has ["even"] but not
    ["odd"] raises [KeyError("odd")] as soon as the list holds an odd
    number. *)
Theorem allocate_fold_missing_odd
    (l : list Z) (out : gmap string (list Foo)) (evens : list Foo) :
  out !! "even" = Some evens ->
  out !! "odd" = None ->
  Exists (λ v, v mod 2 ≠ 0) l ->
  foldl_list_raising l out allocate = Raised (KeyError "odd").
Proof.
  intros He Ho Hex. revert out evens He Ho.
  induction l as [|x l IH]; intros out evens He Ho; [by inversion Hex|].
  cbn [foldl_list_raising].
  destruct (decide (x mod 2 = 0)) as [Hpar|Hpar].
  - rewrite (allocate_even _ _ _ Hpar He). cbn [mbind outcome_bind].
    inversion Hex as [?? Hx|?? Hl]; subst; [done|].
    eapply IH; [done | by rewrite lookup_insert_eq | by rewrite lookup_insert_ne].
  - unfold allocate, getitem. cbv zeta.
    rewrite Foo_new_even, bool_decide_eq_false_2 by done. by rewrite Ho.
Qed.

Lemma allocate_fold_missing_odd_witness :
  foldl_list_raising [0; -2; 7; 4] {["even" := []]} allocate
  = Raised (KeyError "odd").
Proof.
  apply (allocate_fold_missing_odd [0; -2; 7; 4] {["even" := []]} []).
  - reflexivity.
  - reflexivity.
  - do 2 apply Exists_cons_tl. apply Exists_cons_hd. done.
Defined.

(** X12: a fold with [allocate] that returns leaves the set of keys as it was
    and changes no entry other than ["even"] and ["odd"]. *)
Theorem allocate_fold_keeps_keys
    (l : list Z) (out out' : gmap string (list Foo)) :
  foldl_list_raising l out allocate = Returned out' ->
  dom out' = dom out
  /\ (forall key, key ≠ "even" -> key ≠ "odd" -> out' !! key = out !! key).
Proof.
  revert out. induction l as [|x l IH]; intros out Hr.
  - simpl in Hr. by simplify_eq.
  - cbn [foldl_list_raising] in Hr.
    destruct (allocate out x) as [out1|e] eqn:Hx; simpl in Hr; [|done].
    apply allocate_returned in Hx as (key & items & Hkey & Hlk & ->).
    destruct (IH _ Hr) as [Hdom Hother]. split.
    + rewrite Hdom. by apply dom_insert_lookup_L.
    + intros k Hne Hno. rewrite Hother by done.
      apply lookup_insert_ne. destruct Hkey; congruence.
Qed.

Lemma allocate_fold_keeps_keys_witness :
  dom ({["even" := [Foo_new 0; Foo_new 2]; "odd" := [Foo_new 1]; "seen" := []]}
         : gmap string (list Foo))
  = dom ({["even" := []; "odd" := []; "seen" := []]} : gmap string (list Foo))
  /\ (forall key, key ≠ "even" -> key ≠ "odd" ->
        ({["even" := [Foo_new 0; Foo_new 2]; "odd" := [Foo_new 1]; "seen" := []]}
           : gmap string (list Foo)) !! key
        = ({["even" := []; "odd" := []; "seen" := []]}
             : gmap string (list Foo)) !! key).
Proof.
  apply (allocate_fold_keeps_keys [0; 1; 2]). reflexivity.
Defined.

(** X13: on a dictionary that has both keys the fold never raises, whatever
    the integers are, and it extends the lists already there: the even inputs
    are appended to the ["even"] list and the odd ones to the ["odd"] list, in
    input order. *)
Theorem allocate_fold_extends
    (l : list Z) (out : gmap string (list Foo)) (evens odds : list Foo) :
  out !! "even" = Some evens ->
  out !! "odd" = Some odds ->
  exists out',
    foldl_list_raising l out allocate = Returned out'
    /\ out' !! "even" = Some (evens ++ (Foo_new <$> filter (λ v, v mod 2 = 0) l))
    /\ out' !! "odd" = Some (odds ++ (Foo_new <$> filter (λ v, v mod 2 ≠ 0) l)).
Proof.
  intros He Ho. eexists. split; [by apply allocate_fold|]. split.
  - by rewrite lookup_insert_eq.
  - rewrite lookup_insert_ne by done. by rewrite lookup_insert_eq.
Qed.

Lemma allocate_fold_extends_witness :
  exists out',
    foldl_list_raising [5; 6] {["even" := [Foo_new 2]; "odd" := []]} allocate
    = Returned out'
    /\ out' !! "even"
       = Some ([Foo_new 2] ++ (Foo_new <$> filter (λ v, v mod 2 = 0) [5; 6]))
    /\ out' !! "odd"
       = Some ([] ++ (Foo_new <$> filter (λ v, v mod 2 ≠ 0) [5; 6])).
Proof.
  apply (allocate_fold_extends [5; 6] {["even" := [Foo_new 2]; "odd" := []]}
           [Foo_new 2] []); reflexivity.
Defined.

(** X14: the fold with [allocate] from two empty lists partitions its input:
    the two lists together are a permutation of the [Foo]s of the input,
    nothing is lost or duplicated, every entry under ["even"] carries
    [even = True] and every entry under ["odd"] carries [even = False]. *)
Theorem allocate_fold_partitions (l : list Z) :
  exists evens odds,
    foldl_list_raising l {["even" := []; "odd" := []]} allocate
    = Returned {["even" := evens; "odd" := odds]}
    /\ evens ++ odds ≡ₚ Foo_new <$> l
    /\ Forall (λ f, even f = true) evens
    /\ Forall (λ f, even f = false) odds.
Proof.
  exists (Foo_new <$> filter (λ v, v mod 2 = 0) l),
         (Foo_new <$> filter (λ v, v mod 2 ≠ 0) l).
  split; [by rewrite (allocate_fold l _ [] [])|]. split; [|split].
  - rewrite <- fmap_app. apply fmap_Permutation, filter_app_complement.
  - apply Forall_fmap, Forall_forall. intros v [Hv _]%list_elem_of_filter.
    change (even (Foo_new v) = true).
    by rewrite Foo_new_even, bool_decide_eq_true_2.
  - apply Forall_fmap, Forall_forall. intros v [Hv _]%list_elem_of_filter.
    change (even (Foo_new v) = false).
    by rewrite Foo_new_even, bool_decide_eq_false_2.
Qed.

(** X15: [__post_init__] keeps [value] and sets [even] from it, whatever the
    flag was before: [even] holds exactly when 2 divides [value], for negative
    values too; running it again changes nothing. *)
Theorem Foo_post_init_parity (self : Foo) :
  value (Foo_post_init self) = value self
  /\ (even (Foo_post_init self) = true <-> (2 | value self))
  /\ Foo_post_init (Foo_post_init self) = Foo_post_init self.
Proof.
  split; [done|]. split; [|done].
  unfold Foo_post_init; simpl. rewrite Z.eqb_eq.
  by rewrite Z.mod_divide.
Qed.

(** X16: the fold with [allocate] works on the caller's dictionary.  When it
    returns, it returns the reference it was given as [start], the dictionary
    behind that reference holds the result, and no other dictionary of the
    store has changed. *)
Theorem allocate_fold_in_place
    (l : list Z) (out : nat) (h : nat -> gmap string (list Foo))
    (d : gmap string (list Foo)) :
  foldl_list_raising l (h out) allocate = Returned d ->
  exists h',
    foldl_list_stateful l out allocate_obj h = (Returned out, h')
    /\ h' out = d
    /\ (forall r, r ≠ out -> h' r = h r).
Proof.
  revert h. induction l as [|x l IH]; intros h Hr.
  - simpl in Hr. simplify_eq. by exists h.
  - cbn [foldl_list_raising] in Hr. cbn [foldl_list_stateful].
    rewrite allocate_obj_allocate.
    destruct (allocate (h out) x) as [d1|e]; simpl in Hr; [|done].
    destruct (IH (<[out := d1]> h)) as (h' & Hrun & Hout & Hother).
    { by rewrite fn_lookup_insert. }
    exists h'. split; [done|]. split; [done|].
    intros r Hne. rewrite Hother by done. by apply fn_lookup_insert_ne.
Qed.

Lemma allocate_fold_in_place_witness :
  exists h',
    foldl_list_stateful [0; 1; 2] 7%nat allocate_obj
      (λ _, {["even" := []; "odd" := []]})
    = (Returned 7%nat, h')
    /\ h' 7%nat = {["even" := [Foo_new 0; Foo_new 2]; "odd" := [Foo_new 1]]}
    /\ (forall r, r ≠ 7%nat -> h' r = {["even" := []; "odd" := []]}).
Proof.
  apply (allocate_fold_in_place [0; 1; 2] 7%nat
           (λ _, {["even" := []; "odd" := []]})
           {["even" := [Foo_new 0; Foo_new 2]; "odd" := [Foo_new 1]]}).
  reflexivity.
Defined.

(** X17: when [allocate] raises in the middle of the fold, the exception
    leaves the fold and the caller's dictionary keeps what the elements before
    the failing one added to it: the update is not undone. *)
Theorem allocate_fold_failure_keeps_updates
    (pre post : list Z) (x : Z) (out : nat)
    (h : nat -> gmap string (list Foo)) (d : gmap string (list Foo))
    (e : exn) :
  foldl_list_raising pre (h out) allocate = Returned d ->
  allocate d x = Raised e ->
  exists h',
    foldl_list_stateful (pre ++ x :: post) out allocate_obj h = (Raised e, h')
    /\ h' out = d
    /\ (forall r, r ≠ out -> h' r = h r).
Proof.
  intros Hpre Hx. revert h Hpre.
  induction pre as [|y pre IH]; intros h Hpre.
  - simpl in Hpre. simplify_eq. exists h.
    cbn [app foldl_list_stateful]. rewrite allocate_obj_allocate, Hx. done.
  - cbn [foldl_list_raising] in Hpre. cbn [app foldl_list_stateful].
    rewrite allocate_obj_allocate.
    destruct (allocate (h out) y) as [d1|e1]; simpl in Hpre; [|done].
    destruct (IH (<[out := d1]> h)) as (h' & Hrun & Hout & Hother).
    { by rewrite fn_lookup_insert. }
    exists h'. split; [done|]. split; [done|].
    intros r Hne. rewrite Hother by done. by apply fn_lookup_insert_ne.
Qed.

Lemma allocate_fold_failure_keeps_updates_witness :
  exists h',
    foldl_list_stateful ([0; 2] ++ 1 :: [4]) 3%nat allocate_obj
      (λ _, {["even" := []]})
    = (Raised (KeyError "odd"), h')
    /\ h' 3%nat = {["even" := [Foo_new 0; Foo_new 2]]}
    /\ (forall r, r ≠ 3%nat -> h' r = {["even" := []]}).
Proof.
  apply (allocate_fold_failure_keeps_updates [0; 2] [4] 1 3%nat
           (λ _, {["even" := []]})
           {["even" := [Foo_new 0; Foo_new 2]]} (KeyError "odd"));
    reflexivity.
Defined.
